(** * Ghibli poster downloader: a shallow embedding of
      [download_ghibli_images.py] and its specification.

    The script has two parts: the pure [sanitize_filename], and the
    effectful [fetch_and_download_ghibli_images] that talks to the network
    and the file system.  The pure part is embedded as list functions over
    Unicode code points; the effectful part as explicit state passing over a
    [world], with the answers of the network and of the disk given by an
    [environment]. *)

From Stdlib Require Import Ascii String.
From stdpp Require Import gmap strings list fin_maps.
From Stdlib Require Import ZArith Lia.

(** ** Python strings *)

(** A Python [str] is a sequence of Unicode code points. *)
Abbreviation char := N (only parsing).
Abbreviation pystr := (list N) (only parsing).

Definition ch (a : ascii) : char := N_of_ascii a.

(** [py "abc"] is the Python literal ['abc']. *)
Definition py (s : string) : pystr := map ch (list_ascii_of_string s).

Definition underscore : char := ch "_".
Definition space : char := ch " ".
Definition dquote : char := 34%N.
Definition sep : char := ch "/".
Definition extsep : char := ch ".".

(** The nine characters of the class in the first [re.sub]: backslash,
    slash, star, question mark, colon, double quote, the angle brackets and
    the bar. *)
Definition invalid_chars : list char :=
  [ch "\"; ch "/"; ch "*"; ch "?"; ch ":"; dquote; ch "<"; ch ">"; ch "|"].

Definition in_class (cls : list char) (c : char) : bool :=
  existsb (N.eqb c) cls.

(** ** The regular-expression and string primitives used by the script *)

(** [re.sub(r'[cls]', repl, s)]: every character of the class is a match of
    its own and is replaced by [repl]. *)
Definition re_sub_class (cls : list char) (repl : pystr) (s : pystr) : pystr :=
  flat_map (fun c => if in_class cls c then repl else [c]) s.

(** [s.replace(old, new)] for a one-character [old]. *)
Definition str_replace (old : char) (new : pystr) (s : pystr) : pystr :=
  flat_map (fun c => if (c =? old)%N then new else [c]) s.

(** [re.sub(r'c+', repl, s)]: [+] is greedy, so every match is a maximal run
    of [c]; [repl] is emitted at the last character of each run. *)
Fixpoint re_sub_plus (c : char) (repl : pystr) (s : pystr) : pystr :=
  match s with
  | [] => []
  | x :: t =>
      if (x =? c)%N then
        match t with
        | y :: _ => if (y =? c)%N then re_sub_plus c repl t
                    else repl ++ re_sub_plus c repl t
        | [] => repl
        end
      else x :: re_sub_plus c repl t
  end.

(** [s.lstrip(cls)], [s.rstrip(cls)] and [s.strip(cls)]. *)
Fixpoint lstrip (cls : list char) (s : pystr) : pystr :=
  match s with
  | [] => []
  | c :: t => if in_class cls c then lstrip cls t else s
  end.

Definition rstrip (cls : list char) (s : pystr) : pystr :=
  reverse (lstrip cls (reverse s)).

Definition strip (cls : list char) (s : pystr) : pystr :=
  rstrip cls (lstrip cls s).

(** ** [sanitize_filename] *)

Definition sanitize_filename (filename : pystr) : pystr :=
  let sanitized := re_sub_class invalid_chars [] filename in
  let sanitized := str_replace space [underscore] sanitized in
  let sanitized := re_sub_plus underscore [underscore] sanitized in
  let sanitized := strip [underscore] sanitized in
  sanitized.

(** ** [os.path] (POSIX flavour: the separator is the slash only) *)

(** [s.rfind(c)]: the highest index of [c] in [s], or [-1]. *)
Fixpoint rfind_from (c : char) (s : pystr) (i : Z) : Z :=
  match s with
  | [] => (-1)%Z
  | x :: t =>
      let r := rfind_from c t (i + 1)%Z in
      if (0 <=? r)%Z then r else if (x =? c)%N then i else (-1)%Z
  end.

Definition rfind (c : char) (s : pystr) : Z := rfind_from c s 0%Z.

(** The slice [p[i:j]] for [0 <= i <= j]. *)
Definition slice (p : pystr) (i j : Z) : pystr :=
  take (Z.to_nat (j - i)) (drop (Z.to_nat i) p).

(** The [while filenameIndex < dotIndex] loop of [genericpath._splitext],
    with [n] the number of iterations that remain. *)
Fixpoint splitext_scan (p : pystr) (dotIndex : Z) (n : nat) (filenameIndex : Z)
  : pystr * pystr :=
  match n with
  | O => (p, [])
  | S n' =>
      if bool_decide (slice p filenameIndex (filenameIndex + 1) <> [extsep])
      then (take (Z.to_nat dotIndex) p, drop (Z.to_nat dotIndex) p)
      else splitext_scan p dotIndex n' (filenameIndex + 1)%Z
  end.

(** [os.path.splitext(p)], that is [genericpath._splitext(p, '/', None, '.')]. *)
Definition splitext (p : pystr) : pystr * pystr :=
  let sepIndex := rfind sep p in
  let dotIndex := rfind extsep p in
  if (sepIndex <? dotIndex)%Z then
    let filenameIndex := (sepIndex + 1)%Z in
    splitext_scan p dotIndex (Z.to_nat (dotIndex - filenameIndex)) filenameIndex
  else (p, []).

Definition startswith (c : char) (s : pystr) : bool :=
  match head s with Some x => (x =? c)%N | None => false end.

Definition endswith (c : char) (s : pystr) : bool :=
  match last s with Some x => (x =? c)%N | None => false end.

(** [os.path.join(a, b)]. *)
Definition path_join (a b : pystr) : pystr :=
  if startswith sep b then b
  else if bool_decide (a = []) || endswith sep a then a ++ b
  else a ++ [sep] ++ b.

(** [os.path.basename(p)]. *)
Definition basename (p : pystr) : pystr :=
  drop (Z.to_nat (rfind sep p + 1)) p.

(** ** The outside world *)

Definition API_URL : pystr := py "https://ghibliapi.vercel.app/films".
Definition DOWNLOAD_DIR : pystr := py "ghibli_movie_images".

(** A film is the JSON object of one array element.  The API documents the
    list as an array of objects whose fields are strings, and the embedding
    follows it: a field is absent or holds a string. *)
Abbreviation film := (gmap string (list N)) (only parsing).

Abbreviation bytes := (list Byte.byte) (only parsing).

(** The exceptions the script meets.  [HTTPError] is the
    [RequestException] that [raise_for_status] raises; [IOError] is Python's
    alias of [OSError]. *)
Inductive exn :=
  | RequestException (msg : pystr)
  | HTTPError (status : Z)
  | ValueError (msg : pystr)
  | OSError (msg : pystr).

(** What [response.json()] does: it returns the parsed list, or raises a
    decoding error, which is a [ValueError] and, from requests 2.27 on, also
    a [RequestException]. *)
Inductive json_outcome :=
  | JsonList (films : list film)
  | JsonDecodeError (is_request_exception : bool) (msg : pystr).

Record response := {
  status_code : Z;
  json : json_outcome;
  (** the chunks [iter_content] yields *)
  iter_content : list bytes;
  (** the [RequestException] the stream raises after them, if any *)
  stream_error : option pystr;
}.

(** [requests.get] raises a [RequestException] (no connection, timeout, bad
    URL, too many redirects) or returns the final response. *)
Inductive get_outcome :=
  | GetRaises (msg : pystr)
  | GetReturns (r : response).

(** [response.raise_for_status()] raises for the 4xx and 5xx codes. *)
Definition raise_for_status (r : response) : option exn :=
  if (400 <=? status_code r)%Z && (status_code r <? 600)%Z
  then Some (HTTPError (status_code r)) else None.

(** What the disk does with one [open(filepath, 'wb')] and the writes that
    follow: each may raise an [IOError]. *)
Record disk_outcome := {
  open_error : option pystr;
  write_error : nat -> option pystr;
}.

(** The answers of the network and of the file system.  [http_get n url] is
    the outcome of the GET issued after [n] earlier ones, and [disk n path]
    that of the file opened after it. *)
Record environment := {
  http_get : nat -> pystr -> get_outcome;
  makedirs_error : pystr -> option pystr;
  disk : nat -> pystr -> disk_outcome;
}.

Inductive stream := Stdout | Stderr.

(** The lines the script prints, one constructor per [print] call. *)
Inductive message :=
  | FetchingFrom (url : pystr)
  | FoundFilms (n : nat)
  | ErrorFetchingData (e : exn)
  | ErrorParsingJSON (e : exn)
  | ImagesSavedIn (dir : pystr)
  | WarningNoImageURL (title : pystr)
  | AttemptingDownload (title : pystr)
  | ImageURL (url : pystr)
  | SavingTo (filepath : pystr)
  | SuccessfullyDownloaded (name : pystr)
  | ErrorDownloading (url : pystr) (e : exn)
  | ErrorWritingFile (filepath : pystr) (e : exn)
  | DownloadComplete
  | TotalDownloaded (n : nat)
  | TotalFailed (n : nat)
  | Traceback (e : exn).

(** The observable state of a run: what was printed, which URLs were
    requested, and the files on disk. *)
Record world := {
  output : list (stream * message);
  requests : list pystr;
  files : gmap pystr bytes;
}.

Definition print (s : stream) (m : message) (w : world) : world :=
  {| output := output w ++ [(s, m)]; requests := requests w; files := files w |}.

Definition set_files (fs : gmap pystr bytes) (w : world) : world :=
  {| output := output w; requests := requests w; files := fs |}.

Section Pipeline.

Variable env : environment.

(** [requests.get(url, ...)]. *)
Definition get (url : pystr) (w : world) : get_outcome * world :=
  (http_get env (length (requests w)) url,
   {| output := output w; requests := requests w ++ [url]; files := files w |}).

(** The [for chunk in response.iter_content(...): f.write(chunk)] loop;
    [i] counts the writes done. *)
Fixpoint write_chunks (d : disk_outcome) (filepath : pystr) (i : nat)
    (chunks : list bytes) (fs : gmap pystr bytes)
  : option pystr * gmap pystr bytes :=
  match chunks with
  | [] => (None, fs)
  | chunk :: rest =>
      match write_error d i with
      | Some msg => (Some msg, fs)
      | None =>
          write_chunks d filepath (S i) rest
            (<[filepath := default [] (fs !! filepath) ++ chunk]> fs)
      end
  end.

(** ** [download_image] *)

Definition download_image (url filepath : pystr) (w : world) : bool * world :=
  let n := length (requests w) in
  let '(res, w) := get url w in
  match res with
  | GetRaises msg =>
      (false, print Stderr (ErrorDownloading url (RequestException msg)) w)
  | GetReturns response =>
      match raise_for_status response with
      | Some e => (false, print Stderr (ErrorDownloading url e) w)
      | None =>
          let d := disk env n filepath in
          match open_error d with
          | Some msg =>
              (false, print Stderr (ErrorWritingFile filepath (OSError msg)) w)
          | None =>
              let '(werr, fs) :=
                write_chunks d filepath 0 (iter_content response)
                  (<[filepath := []]> (files w)) in
              let w := set_files fs w in
              match werr with
              | Some msg =>
                  (false, print Stderr (ErrorWritingFile filepath (OSError msg)) w)
              | None =>
                  match stream_error response with
                  | Some msg =>
                      (false,
                       print Stderr (ErrorDownloading url (RequestException msg)) w)
                  | None =>
                      (true,
                       print Stdout (SuccessfullyDownloaded (basename filepath)) w)
                  end
              end
          end
      end
  end.

(** ** [fetch_and_download_ghibli_images] *)

(** The locals of the loop that outlive an iteration. *)
Record loop_state := {
  download_count : nat;
  error_count : nat;
  the_world : world;
}.

(** Python truthiness of [film.get("image")]: [None] and the empty string
    are false. *)
Definition truthy (v : option pystr) : bool :=
  match v with
  | Some (_ :: _) => true
  | _ => false
  end.

(** Lines 80 to 82: the extension of the URL, or [.jpg]. *)
Definition file_extension_of (image_url : pystr) : pystr :=
  let file_extension := (splitext image_url).2 in
  if bool_decide (file_extension = []) then py ".jpg" else file_extension.

(** Line 85. *)
Definition filepath_of (title image_url : pystr) : pystr :=
  path_join DOWNLOAD_DIR (sanitize_filename title ++ file_extension_of image_url).

(** The body of [for film in films]. *)
Definition process_film (st : loop_state) (film : film) : loop_state :=
  let title := default (py "unknown_title") (film !! "title"%string) in
  let image_url := film !! "image"%string in
  if negb (truthy image_url) then
    {| download_count := download_count st;
       error_count := error_count st;
       the_world := print Stderr (WarningNoImageURL title) (the_world st) |}
  else
    let image_url := default [] image_url in
    let filepath := filepath_of title image_url in
    let w := print Stdout (AttemptingDownload title) (the_world st) in
    let w := print Stdout (ImageURL image_url) w in
    let w := print Stdout (SavingTo filepath) w in
    let '(ok, w) := download_image image_url filepath w in
    if ok then
      {| download_count := download_count st + 1;
         error_count := error_count st;
         the_world := w |}
    else
      {| download_count := download_count st;
         error_count := error_count st + 1;
         the_world := w |}.

Definition process_films (films : list film) (st : loop_state) : loop_state :=
  fold_left process_film films st.

(** The report printed after the loop. *)
Definition report (st : loop_state) : world :=
  let w := print Stdout DownloadComplete (the_world st) in
  let w := print Stdout (TotalDownloaded (download_count st)) w in
  if (0 <? error_count st)%nat then print Stdout (TotalFailed (error_count st)) w
  else w.

(** The whole script: the exit code of the process and the world it leaves.
    [sys.exit(1)] and an uncaught exception both end the process with code
    1; falling off the end of the script ends it with code 0. *)
Definition fetch_and_download_ghibli_images (w : world) : Z * world :=
  let w := print Stdout (FetchingFrom API_URL) w in
  let '(res, w) := get API_URL w in
  match res with
  | GetRaises msg =>
      (1%Z, print Stderr (ErrorFetchingData (RequestException msg)) w)
  | GetReturns response =>
      match raise_for_status response with
      | Some e => (1%Z, print Stderr (ErrorFetchingData e) w)
      | None =>
          match json response with
          | JsonDecodeError true msg =>
              (1%Z, print Stderr (ErrorFetchingData (RequestException msg)) w)
          | JsonDecodeError false msg =>
              (1%Z, print Stderr (ErrorParsingJSON (ValueError msg)) w)
          | JsonList films =>
              let w := print Stdout (FoundFilms (length films)) w in
              match makedirs_error env DOWNLOAD_DIR with
              | Some msg => (1%Z, print Stderr (Traceback (OSError msg)) w)
              | None =>
                  let w := print Stdout (ImagesSavedIn DOWNLOAD_DIR) w in
                  let st := process_films films
                              {| download_count := 0;
                                 error_count := 0;
                                 the_world := w |} in
                  (0%Z, report st)
              end
          end
      end
  end.

End Pipeline.

(** ** Vocabulary of the sanitizer's properties *)

(** No two neighbouring positions of [s] both hold [c]. *)
Definition no_double (c : char) (s : pystr) : Prop :=
  ∀ i : nat, ¬ (s !! i = Some c ∧ s !! S i = Some c).

(** No character of [s] is in the class. *)
Definition avoids (cls : list char) (s : pystr) : Prop :=
  Forall (λ c, in_class cls c = false) s.

(** ** The extension rule, in the words of the specification *)

(** [contains c s] is Python's [c in s]. *)
Definition contains (c : char) (s : pystr) : bool := existsb (N.eqb c) s.

(** The text after the last [c] of [s]; all of [s] when it has no [c]. *)
Fixpoint after_last (c : char) (s : pystr) : pystr :=
  match s with
  | [] => []
  | x :: t =>
      if contains c t then after_last c t
      else if (x =? c)%N then t else x :: t
  end.

(** The last path segment: what follows the last slash. *)
Definition last_segment (url : pystr) : pystr := after_last sep url.

(** The rule as the specification words it: the substring after the last
    dot of the last segment, and [.jpg] when the segment has no dot. *)
Definition spec_extension (url : pystr) : pystr :=
  let segment := last_segment url in
  if contains extsep segment then after_last extsep segment else py ".jpg".

(** The rule the code follows: the dots that start the segment do not count,
    and the extension keeps its dot. *)
Definition dotted_extension (url : pystr) : pystr :=
  let segment := lstrip [extsep] (last_segment url) in
  if contains extsep segment then extsep :: after_last extsep segment
  else py ".jpg".

(** ** Vocabulary of the pipeline's properties *)

Definition is_2xx (status : Z) : bool := (200 <=? status)%Z && (status <? 300)%Z.

Definition is_4xx_5xx (status : Z) : bool := (400 <=? status)%Z && (status <? 600)%Z.

Definition json_fails (r : response) : bool :=
  match json r with
  | JsonDecodeError _ _ => true
  | JsonList _ => false
  end.

(** The metadata request fails, as the specification words it: a network
    error, a status outside 2xx, or a body that is not JSON. *)
Definition metadata_fails_spec (o : get_outcome) : bool :=
  match o with
  | GetRaises _ => true
  | GetReturns r => negb (is_2xx (status_code r)) || json_fails r
  end.

(** The same with the statuses the script rejects. *)
Definition metadata_fails (o : get_outcome) : bool :=
  match o with
  | GetRaises _ => true
  | GetReturns r => is_4xx_5xx (status_code r) || json_fails r
  end.

Definition is_error_report (m : message) : bool :=
  match m with
  | ErrorFetchingData _ | ErrorParsingJSON _ => true
  | _ => false
  end.

Definition title_of (film : film) : pystr :=
  default (py "unknown_title") (film !! "title"%string).

Definition has_image_url (film : film) : bool := truthy (film !! "image"%string).



(** The state in which the loop starts. *)
Definition loop_start (w : world) : loop_state :=
  {| download_count := 0; error_count := 0; the_world := w |}.

(** The lines of the final report for the counts [d] and [e]. *)
Definition report_lines (d e : nat) : list (stream * message) :=
  [(Stdout, DownloadComplete); (Stdout, TotalDownloaded d)]
  ++ match e with
     | O => []
     | S _ => [(Stdout, TotalFailed e)]
     end.

(** ** Sample runs *)

Definition castle_url : pystr :=
  py "https://image.tmdb.org/t/p/w600_and_h900_bestv2/npOnzAbLh6VOIu3naU5QaEcTepo.jpg".

Definition castle : film :=
  {[ "title"%string := py "Castle in the Sky"; "image"%string := castle_url ]}.

Definition totoro_without_image : film :=
  {[ "title"%string := py "My Neighbor Totoro" ]}.

Definition kiki_empty_image : film :=
  {[ "title"%string := py "Kiki's Delivery Service"; "image"%string := [] ]}.

Definition ponyo : film :=
  {[ "title"%string := py "Ponyo"; "image"%string := py "https://h/posters/ponyo.png" ]}.

Definition reply (status : Z) (films : list film) (chunks : list bytes) : response :=
  {| status_code := status; json := JsonList films;
     iter_content := chunks; stream_error := None |}.

Definition jpeg_chunks : list bytes := [[Byte.xff; Byte.xd8]; [Byte.xff; Byte.xd9]].

Definition good_disk : disk_outcome :=
  {| open_error := None; write_error := λ _, None |}.

Definition env_of (http : nat → pystr → get_outcome) : environment :=
  {| http_get := http; makedirs_error := λ _, None; disk := λ _ _, good_disk |}.

Definition world0 : world := {| output := []; requests := []; files := ∅ |}.

(** The world once the list of films has been fetched. *)
Definition after_fetch : world :=
  {| output := []; requests := [API_URL]; files := ∅ |}.

(** The API is unreachable. *)
Definition env_down : environment :=
  env_of (λ _ _, GetRaises (py "connection refused")).

(** Every request is answered with status 300 and a usable body. *)
Definition env_300 : environment :=
  env_of (λ _ _, GetReturns (reply 300 [castle] jpeg_chunks)).

(** Three films are listed; the first poster is missing on the server. *)
Definition env_404 : environment :=
  env_of (λ n _,
    match n with
    | 0%nat => GetReturns (reply 200 [castle; totoro_without_image; ponyo] [])
    | 1%nat => GetReturns (reply 404 [] [])
    | _ => GetReturns (reply 200 [] jpeg_chunks)
    end).

(** ** Vocabulary of the further properties *)

(** The characters the sanitizer removes or turns into separators: the class,
    the space and the underscore.  All the others are [kept]. *)
Definition droppable (c : char) : bool :=
  in_class invalid_chars c || (c =? space)%N || (c =? underscore)%N.

Definition kept (c : char) : bool := negb (droppable c).






(** The list is served, but the download directory cannot be created. *)
Definition env_readonly : environment :=
  {| http_get := λ _ _, GetReturns (reply 200 [castle] jpeg_chunks);
     makedirs_error := λ _, Some (py "Permission denied");
     disk := λ _ _, good_disk |}.

(** Every reply breaks off after its two chunks. *)
Definition env_broken_stream : environment :=
  env_of (λ _ _,
    GetReturns {| status_code := 200; json := JsonList [castle];
                  iter_content := jpeg_chunks;
                  stream_error := Some (py "Connection broken") |}).

(** Every request is answered with status 200 and two chunks of image. *)
Definition env_200 : environment :=
  env_of (λ _ _, GetReturns (reply 200 [castle] jpeg_chunks)).

(** A record with a poster but no title. *)
Definition untitled : film := {[ "image"%string := py "https://h/posters/x.png" ]}.

(** A world with an older poster already on disk. *)
Definition with_old_poster : world :=
  {| output := []; requests := [API_URL];
     files := {[ py "ghibli_movie_images/Castle_in_the_Sky.jpg" := [Byte.x00] ]} |}.

(** * Properties *)

Example sanitize_castle :
  sanitize_filename (py "Castle in the Sky: Part 1") = py "Castle_in_the_Sky_Part_1".
Proof. reflexivity. Qed.

Example sanitize_messy :
  sanitize_filename (py " _a /: b__ _c?_ ") = py "a_b_c".
Proof. reflexivity. Qed.

Example splitext_poster :
  splitext (py "https://image.tmdb.org/t/p/w600/npOnzAbLh6VOIu3naU5QaEcTepo.jpg")
  = (py "https://image.tmdb.org/t/p/w600/npOnzAbLh6VOIu3naU5QaEcTepo", py ".jpg").
Proof. reflexivity. Qed.

Example splitext_hidden : splitext (py "https://h/..png") = (py "https://h/..png", []).
Proof. reflexivity. Qed.

Example filepath_castle :
  filepath_of (py "Castle in the Sky") (py "https://h/p/a.b/castle.png")
  = py "ghibli_movie_images/Castle_in_the_Sky.png".
Proof. reflexivity. Qed.

(** ** The sanitizer *)

Module Sanitizer.

Lemma no_double_nil c : no_double c [].
Proof. intros i [H _]. discriminate. Qed.

Lemma no_double_single c x : no_double c [x].
Proof. intros i [_ H]. destruct i; discriminate. Qed.

Lemma no_double_cons c x y t :
  no_double c (x :: y :: t) ↔ ¬ (x = c ∧ y = c) ∧ no_double c (y :: t).
Proof.
  split.
  - intros H. split.
    + intros [-> ->]. by apply (H 0%nat).
    + intros i Hi. by apply (H (S i)).
  - intros [Hxy H] [|i] [H1 H2]; simpl in *.
    + apply Hxy. split; congruence.
    + by apply (H i).
Qed.

Lemma no_double_cons_ne c x t : x ≠ c → no_double c t → no_double c (x :: t).
Proof.
  intros Hx Ht. destruct t as [|y t]; [apply no_double_single|].
  apply no_double_cons. split; [|done]. by intros [? _].
Qed.

Lemma no_double_tail c x t : no_double c (x :: t) → no_double c t.
Proof. intros H i Hi. by apply (H (S i)). Qed.

Lemma no_double_app_r c k l : no_double c (k ++ l) → no_double c l.
Proof. induction k as [|x k IH]; [done|]. intros H. by apply IH, (no_double_tail c x). Qed.

Lemma no_double_app_l c k l : no_double c (k ++ l) → no_double c k.
Proof.
  intros H i [H1 H2]. apply (H i).
  split; apply lookup_app_l_Some; done.
Qed.

(** *** Step 1: the class is removed *)

Lemma re_sub_class_avoids cls s : avoids cls (re_sub_class cls [] s).
Proof.
  induction s as [|x s IH]; [constructor|].
  unfold re_sub_class in *. simpl.
  destruct (in_class cls x) eqn:Hx; simpl; [done|]. by constructor.
Qed.

Lemma re_sub_class_id cls repl s : avoids cls s → re_sub_class cls repl s = s.
Proof.
  induction 1 as [|x s Hx _ IH]; [done|].
  unfold re_sub_class in *. simpl. by rewrite Hx, IH.
Qed.

(** *** Step 2: spaces become underscores *)

Lemma str_replace_Forall (P : char → Prop) old new s :
  P new → Forall P s → Forall P (str_replace old [new] s).
Proof.
  intros Hn. induction 1 as [|x s Hx _ IH]; [constructor|].
  unfold str_replace in *. simpl.
  destruct (x =? old)%N; simpl; by constructor.
Qed.

Lemma str_replace_gone old new s :
  new ≠ old → Forall (λ c, c ≠ old) (str_replace old [new] s).
Proof.
  intros Hn. induction s as [|x s IH]; [constructor|].
  unfold str_replace in *. simpl.
  destruct (N.eqb_spec x old); simpl; by constructor.
Qed.

Lemma str_replace_id old new s :
  Forall (λ c, c ≠ old) s → str_replace old new s = s.
Proof.
  induction 1 as [|x s Hx _ IH]; [done|].
  unfold str_replace in *. simpl.
  destruct (N.eqb_spec x old); [done|]. simpl. by rewrite IH.
Qed.

(** *** Step 3: runs are collapsed *)

Lemma re_sub_plus_cons c repl x t :
  re_sub_plus c repl (x :: t) =
  if (x =? c)%N then
    match t with
    | y :: _ => if (y =? c)%N then re_sub_plus c repl t
                else repl ++ re_sub_plus c repl t
    | [] => repl
    end
  else x :: re_sub_plus c repl t.
Proof. reflexivity. Qed.

Lemma re_sub_plus_Forall (P : char → Prop) c s :
  Forall P s → Forall P (re_sub_plus c [c] s).
Proof.
  induction 1 as [|x s Hx Hs IH]; [constructor|]. rewrite re_sub_plus_cons.
  destruct (N.eqb_spec x c) as [->|Hne]; [|by constructor].
  destruct s as [|y s]; [by repeat constructor|].
  destruct (y =? c)%N; [done|]. by constructor.
Qed.

Lemma re_sub_plus_head c s : head (re_sub_plus c [c] s) = head s.
Proof.
  induction s as [|x s IH]; [done|]. rewrite re_sub_plus_cons.
  destruct (N.eqb_spec x c) as [->|Hne]; [|done].
  destruct s as [|y s]; [done|].
  destruct (N.eqb_spec y c) as [->|Hy]; [|done].
  by rewrite IH.
Qed.

Lemma re_sub_plus_no_double c s : no_double c (re_sub_plus c [c] s).
Proof.
  induction s as [|x s IH]; [apply no_double_nil|]. rewrite re_sub_plus_cons.
  destruct (N.eqb_spec x c) as [->|Hne]; [|by apply no_double_cons_ne].
  destruct s as [|y s]; [apply no_double_single|].
  destruct (N.eqb_spec y c) as [->|Hy]; [done|].
  pose proof (re_sub_plus_head c (y :: s)) as Hh.
  destruct (re_sub_plus c [c] (y :: s)) as [|z r]; [apply no_double_single|].
  simpl in Hh. injection Hh as ->.
  apply (no_double_cons c c y r). split; [|done]. by intros [_ ?].
Qed.

Lemma re_sub_plus_id c s : no_double c s → re_sub_plus c [c] s = s.
Proof.
  induction s as [|x s IH]; [done|]. intros H. rewrite re_sub_plus_cons.
  destruct (N.eqb_spec x c) as [->|Hne].
  - destruct s as [|y s]; [done|].
    apply no_double_cons in H as [Hxy H].
    destruct (N.eqb_spec y c) as [->|Hy]; [by destruct Hxy|].
    cbn [app]. f_equal. by apply IH.
  - f_equal. apply IH. by apply (no_double_tail c x).
Qed.

(** *** Step 4: the ends are stripped *)

Lemma lstrip_suffix cls s : lstrip cls s `suffix_of` s.
Proof.
  induction s as [|x s IH]; [done|]. simpl.
  destruct (in_class cls x); [by apply suffix_cons_r|done].
Qed.

Lemma lstrip_head cls s x : head (lstrip cls s) = Some x → in_class cls x = false.
Proof.
  induction s as [|y s IH]; [done|]. simpl.
  destruct (in_class cls y) eqn:Hy; [done|]. simpl. by intros [= <-].
Qed.

Lemma lstrip_id cls s :
  (∀ x, head s = Some x → in_class cls x = false) → lstrip cls s = s.
Proof. destruct s as [|y s]; [done|]. intros H. simpl. by rewrite (H y). Qed.

Lemma rstrip_prefix cls s : rstrip cls s `prefix_of` s.
Proof.
  unfold rstrip. apply prefix_suffix_reverse.
  rewrite reverse_involutive. apply lstrip_suffix.
Qed.

Lemma rstrip_last cls s x : last (rstrip cls s) = Some x → in_class cls x = false.
Proof. unfold rstrip. rewrite last_reverse. apply lstrip_head. Qed.

Lemma rstrip_id cls s :
  (∀ x, last s = Some x → in_class cls x = false) → rstrip cls s = s.
Proof.
  intros H. unfold rstrip. rewrite lstrip_id, reverse_involutive; [done|].
  intros x. rewrite head_reverse. apply H.
Qed.

Lemma strip_infix cls s : ∃ k1 k2, s = k1 ++ strip cls s ++ k2.
Proof.
  destruct (lstrip_suffix cls s) as [k1 H1].
  destruct (rstrip_prefix cls (lstrip cls s)) as [k2 H2].
  exists k1, k2. unfold strip. by rewrite <- H2.
Qed.

Lemma strip_head cls s x : head (strip cls s) = Some x → in_class cls x = false.
Proof.
  intros H. apply (lstrip_head cls s).
  destruct (rstrip_prefix cls (lstrip cls s)) as [k Hk]. rewrite Hk.
  unfold strip in H. by destruct (rstrip cls (lstrip cls s)).
Qed.

Lemma strip_last cls s x : last (strip cls s) = Some x → in_class cls x = false.
Proof. apply rstrip_last. Qed.

Lemma strip_id cls s :
  (∀ x, head s = Some x → in_class cls x = false) →
  (∀ x, last s = Some x → in_class cls x = false) →
  strip cls s = s.
Proof. intros Hh Hl. unfold strip. by rewrite (lstrip_id cls s Hh), rstrip_id. Qed.

Lemma strip_Forall (P : char → Prop) cls s : Forall P s → Forall P (strip cls s).
Proof.
  intros H. destruct (strip_infix cls s) as (k1 & k2 & Hs).
  rewrite Hs in H. apply Forall_app in H as [_ H]. by apply Forall_app in H as [H _].
Qed.

Lemma strip_no_double c cls s : no_double c s → no_double c (strip cls s).
Proof.
  intros H. destruct (strip_infix cls s) as (k1 & k2 & Hs).
  rewrite Hs in H. by apply no_double_app_r, no_double_app_l in H.
Qed.

Lemma in_class_single c x : in_class [c] x = false ↔ x ≠ c.
Proof. unfold in_class. simpl. destruct (N.eqb_spec x c); naive_solver. Qed.

(** *** The four facts about the output *)

Lemma sanitize_avoids_invalid s : avoids invalid_chars (sanitize_filename s).
Proof.
  unfold sanitize_filename.
  apply strip_Forall, re_sub_plus_Forall, str_replace_Forall; [done|].
  apply re_sub_class_avoids.
Qed.

Lemma sanitize_no_space s : Forall (λ c, c ≠ space) (sanitize_filename s).
Proof.
  unfold sanitize_filename.
  by apply strip_Forall, re_sub_plus_Forall, str_replace_gone.
Qed.

Lemma sanitize_no_double s : no_double underscore (sanitize_filename s).
Proof. apply strip_no_double, re_sub_plus_no_double. Qed.

Lemma sanitize_head s : head (sanitize_filename s) ≠ Some underscore.
Proof. intros H. by apply strip_head, in_class_single in H. Qed.

Lemma sanitize_last s : last (sanitize_filename s) ≠ Some underscore.
Proof. intros H. by apply strip_last, in_class_single in H. Qed.

(** A string that already has the four properties is left as it is. *)
Lemma sanitize_fixpoint s :
  avoids invalid_chars s → Forall (λ c, c ≠ space) s →
  no_double underscore s →
  head s ≠ Some underscore → last s ≠ Some underscore →
  sanitize_filename s = s.
Proof.
  intros Ha Hs Hd Hh Hl. unfold sanitize_filename.
  rewrite re_sub_class_id, str_replace_id, re_sub_plus_id by done.
  apply strip_id; intros x Hx; apply in_class_single; congruence.
Qed.

End Sanitizer.

(** ** Paths and extensions *)

Module Paths.

Lemma contains_app c a b : contains c (a ++ b) = contains c a || contains c b.
Proof. apply existsb_app. Qed.

Lemma contains_cons c x t : contains c (x :: t) = (c =? x)%N || contains c t.
Proof. reflexivity. Qed.

Lemma contains_after_last c s : contains c (after_last c s) = false.
Proof.
  induction s as [|x s IH]; [done|]. simpl.
  destruct (contains c s) eqn:Hs; [done|].
  destruct (N.eqb_spec x c) as [->|Hne]; [done|].
  rewrite contains_cons, Hs. by destruct (N.eqb_spec c x).
Qed.

(** [s] splits at its last [c], when it has one. *)
Lemma after_last_split c s :
  contains c s = true → ∃ a, s = a ++ c :: after_last c s.
Proof.
  induction s as [|x s IH]; [done|]. rewrite contains_cons. simpl.
  destruct (contains c s) eqn:Hs.
  - intros _. destruct IH as [a Ha]; [done|]. exists (x :: a). simpl. by rewrite <- Ha.
  - rewrite orb_false_r. intros Hx%N.eqb_eq. subst x.
    rewrite N.eqb_refl. by exists [].
Qed.

Lemma after_last_none c s : contains c s = false → after_last c s = s.
Proof.
  destruct s as [|x s]; [done|]. rewrite contains_cons. simpl.
  intros [Hx Hs]%orb_false_elim. rewrite Hs.
  rewrite N.eqb_sym in Hx. by rewrite Hx.
Qed.

Lemma after_last_app c a e :
  contains c e = false → after_last c (a ++ c :: e) = e.
Proof.
  intros He. induction a as [|x a IH]; simpl.
  - by rewrite He, N.eqb_refl.
  - by rewrite contains_app, contains_cons, N.eqb_refl, orb_true_r.
Qed.

(** *** [rfind] *)

Lemma rfind_from_none c s i : contains c s = false → rfind_from c s i = (-1)%Z.
Proof.
  revert i. induction s as [|x s IH]; [done|]. intros i.
  rewrite contains_cons. intros [Hx Hs]%orb_false_elim. simpl.
  rewrite IH by done. simpl. rewrite N.eqb_sym in Hx. by rewrite Hx.
Qed.

Lemma rfind_from_last c a e i :
  (0 ≤ i)%Z → contains c e = false →
  rfind_from c (a ++ c :: e) i = (i + Z.of_nat (length a))%Z.
Proof.
  intros Hi He. revert i Hi. induction a as [|x a IH]; intros i Hi.
  - simpl. rewrite rfind_from_none by done. simpl. rewrite N.eqb_refl. lia.
  - cbn [app rfind_from length]. rewrite IH by lia.
    destruct (Z.leb_spec 0 (i + 1 + Z.of_nat (length a))); lia.
Qed.

Lemma rfind_from_bound c s i :
  (0 ≤ i)%Z → (rfind_from c s i < i + Z.of_nat (length s))%Z.
Proof.
  revert i. induction s as [|x s IH]; intros i Hi; simpl; [lia|].
  specialize (IH (i + 1)%Z ltac:(lia)).
  destruct (Z.leb_spec 0 (rfind_from c s (i + 1))); [lia|].
  destruct (x =? c)%N; lia.
Qed.

Lemma rfind_from_app_none c a b i :
  contains c b = false → rfind_from c (a ++ b) i = rfind_from c a i.
Proof.
  intros Hb. revert i. induction a as [|x a IH]; intros i; simpl.
  - by apply rfind_from_none.
  - by rewrite IH.
Qed.

(** *** [splitext] *)

Lemma slice_one (Q : pystr) x rest :
  slice (Q ++ x :: rest) (Z.of_nat (length Q)) (Z.of_nat (length Q) + 1) = [x].
Proof.
  unfold slice.
  replace (Z.to_nat (Z.of_nat (length Q) + 1 - Z.of_nat (length Q))) with 1%nat by lia.
  by rewrite Nat2Z.id, drop_app_length.
Qed.

(** The scan over [b], the part of the segment before its last dot, splits
    at the dot unless [b] is made of dots only. *)
Lemma splitext_scan_spec p di (Q b R : pystr) :
  p = Q ++ b ++ R →
  splitext_scan p di (length b) (Z.of_nat (length Q)) =
  if forallb (λ x, (x =? extsep)%N) b then (p, [])
  else (take (Z.to_nat di) p, drop (Z.to_nat di) p).
Proof.
  revert Q. induction b as [|x b IH]; intros Q Hp; [done|].
  cbn [length splitext_scan forallb].
  assert (slice p (Z.of_nat (length Q)) (Z.of_nat (length Q) + 1) = [x]) as ->
    by (rewrite Hp; apply slice_one).
  destruct (N.eqb_spec x extsep) as [->|Hne].
  - rewrite bool_decide_eq_false_2 by (intros H; by apply H).
    cbn [andb]. rewrite <- (IH (Q ++ [extsep])).
    + by rewrite length_app, Nat2Z.inj_add.
    + by rewrite Hp, <- !app_assoc.
  - rewrite bool_decide_eq_true_2; [done|]. by intros [= ?].
Qed.

(** The URL is a prefix followed by its last segment, and the last slash is
    the last character of the prefix. *)
Lemma url_last_segment url :
  ∃ P, url = P ++ last_segment url ∧ rfind sep url = (Z.of_nat (length P) - 1)%Z.
Proof.
  unfold last_segment, rfind. destruct (contains sep url) eqn:Hs.
  - destruct (after_last_split sep url Hs) as [a Ha]. exists (a ++ [sep]).
    split; [by rewrite <- app_assoc|].
    assert (rfind_from sep url 0 = (0 + Z.of_nat (length a))%Z) as ->.
    { rewrite Ha. apply rfind_from_last; [done|apply contains_after_last]. }
    rewrite length_app. simpl. lia.
  - exists []. split; [by rewrite after_last_none|]. by rewrite rfind_from_none.
Qed.

Lemma contains_lstrip c cls s : contains c s = false → contains c (lstrip cls s) = false.
Proof.
  intros H. destruct (Sanitizer.lstrip_suffix cls s) as [k Hk].
  rewrite Hk, contains_app in H. by apply orb_false_elim in H as [_ ?].
Qed.

Lemma lstrip_all_dots a r :
  forallb (λ x, (x =? extsep)%N) a = true → lstrip [extsep] (a ++ r) = lstrip [extsep] r.
Proof.
  induction a as [|x a IH]; [done|]. simpl.
  intros [Hx Ha]%andb_prop. unfold in_class. simpl. rewrite Hx. simpl. by apply IH.
Qed.

Lemma lstrip_some_stem a r :
  forallb (λ x, (x =? extsep)%N) a = false →
  ∃ a', lstrip [extsep] (a ++ r) = a' ++ r.
Proof.
  induction a as [|x a IH]; [done|]. cbn [forallb app lstrip in_class existsb].
  destruct (x =? extsep)%N; cbn [andb orb]; [done|]. intros _. by exists (x :: a).
Qed.

(** What the script computes is the rule of [dotted_extension]. *)
Lemma file_extension_of_dotted url : file_extension_of url = dotted_extension url.
Proof.
  destruct (url_last_segment url) as (P & Hurl & Hsep).
  unfold file_extension_of, dotted_extension, splitext. rewrite Hsep.
  set (seg := last_segment url) in *.
  destruct (contains extsep seg) eqn:Hdot.
  - destruct (after_last_split extsep seg Hdot) as [a Ha].
    set (e := after_last extsep seg) in *.
    assert (He : contains extsep e = false) by apply contains_after_last.
    assert (Hi : rfind extsep url = Z.of_nat (length (P ++ a))).
    { unfold rfind. rewrite Hurl, Ha, app_assoc. by rewrite rfind_from_last. }
    rewrite Hi, length_app, Nat2Z.inj_add.
    destruct (Z.ltb_spec (Z.of_nat (length P) - 1) (Z.of_nat (length P) + Z.of_nat (length a)));
      [|lia].
    replace (Z.of_nat (length P) - 1 + 1)%Z with (Z.of_nat (length P)) by lia.
    replace (Z.to_nat (Z.of_nat (length P) + Z.of_nat (length a) - Z.of_nat (length P)))
      with (length a) by lia.
    rewrite (splitext_scan_spec url _ P a (extsep :: e)) by (by rewrite Hurl, Ha).
    rewrite Ha. destruct (forallb _ a) eqn:Hall.
    + rewrite lstrip_all_dots by done. simpl. unfold in_class. simpl.
      by rewrite contains_lstrip.
    + destruct (lstrip_some_stem a (extsep :: e) Hall) as [a' ->].
      rewrite contains_app, contains_cons, N.eqb_refl, orb_true_r.
      rewrite after_last_app by done. cbn [snd].
      rewrite <- Nat2Z.inj_add, Nat2Z.id, <- length_app.
      rewrite Hurl, Ha, app_assoc, drop_app_length. done.
  - rewrite contains_lstrip by done.
    assert (Hi : (rfind extsep url ≤ Z.of_nat (length P) - 1)%Z).
    { unfold rfind. rewrite Hurl, rfind_from_app_none by done.
      pose proof (rfind_from_bound extsep P 0). lia. }
    destruct (Z.ltb_spec (Z.of_nat (length P) - 1) (rfind extsep url)); [lia|done].
Qed.

Lemma dotted_extension_head url : head (dotted_extension url) = Some extsep.
Proof. unfold dotted_extension. by destruct (contains _ _). Qed.

(** The destination is always the directory, a slash and the file name. *)
Lemma filepath_of_spelled title url :
  filepath_of title url
  = DOWNLOAD_DIR ++ [sep] ++ sanitize_filename title ++ dotted_extension url.
Proof.
  unfold filepath_of. rewrite file_extension_of_dotted. unfold path_join.
  assert (Hs : startswith sep (sanitize_filename title ++ dotted_extension url) = false).
  { unfold startswith. pose proof (Sanitizer.sanitize_avoids_invalid title) as Ha.
    pose proof (dotted_extension_head url) as Hd.
    destruct (sanitize_filename title) as [|x r].
    - simpl. by rewrite Hd.
    - simpl. apply Forall_cons in Ha as [Hx _].
      destruct (N.eqb_spec x sep) as [->|]; [discriminate|done]. }
  by rewrite Hs.
Qed.

End Paths.

(** ** The pipeline *)

Module Pipeline.

Section WithEnvironment.

Variable env : environment.

(** *** One download *)



(** *** One record *)

Lemma process_film_skip st film :
  has_image_url film = false →
  process_film env st film
  = {| download_count := download_count st;
       error_count := error_count st;
       the_world := print Stderr (WarningNoImageURL (title_of film)) (the_world st) |}.
Proof. unfold has_image_url, process_film. by intros ->. Qed.

Lemma process_film_counters st film :
  (download_count (process_film env st film) + error_count (process_film env st film)
   = download_count st + error_count st + (if has_image_url film then 1 else 0))%nat.
Proof.
  unfold process_film, has_image_url. destruct (truthy _); simpl; [|lia].
  destruct (download_image _ _ _ _) as [[] w]; simpl; lia.
Qed.


(** *** The loop *)


Lemma process_films_cons film post st :
  process_films env (film :: post) st = process_films env post (process_film env st film).
Proof. reflexivity. Qed.

Lemma process_films_counters films st :
  (download_count (process_films env films st) + error_count (process_films env films st)
   = download_count st + error_count st + length (List.filter has_image_url films))%nat.
Proof.
  revert st. induction films as [|film films IH]; intros st; simpl; [lia|].
  fold (process_films env films (process_film env st film)).
  rewrite IH, process_film_counters. destruct (has_image_url film); simpl; lia.
Qed.


End WithEnvironment.

End Pipeline.

(** * The claims *)

(** C1: for every input string, the output of [sanitize_filename] holds
    none of the nine characters of the class, has no two underscores next to
    each other, and neither starts nor ends with an underscore. *)
Theorem sanitize_filename_safe (filename : pystr) :
  Forall (λ c, c ∉ sanitize_filename filename) invalid_chars
  ∧ (∀ i : nat, ¬ (sanitize_filename filename !! i = Some underscore
                   ∧ sanitize_filename filename !! S i = Some underscore))
  ∧ head (sanitize_filename filename) ≠ Some underscore
  ∧ last (sanitize_filename filename) ≠ Some underscore.
Proof.
  split; [|split; [|split]].
  - apply Forall_forall. intros c Hc Hin.
    pose proof (Sanitizer.sanitize_avoids_invalid filename) as Ha.
    apply (proj1 (Forall_forall _ _) Ha) in Hin.
    apply not_true_iff_false in Hin. apply Hin.
    apply existsb_exists. exists c. split; [by apply list_elem_of_In|apply N.eqb_refl].
  - apply Sanitizer.sanitize_no_double.
  - apply Sanitizer.sanitize_head.
  - apply Sanitizer.sanitize_last.
Qed.

(** C6: [sanitize_filename] is idempotent. *)
Theorem sanitize_filename_idempotent (filename : pystr) :
  sanitize_filename (sanitize_filename filename) = sanitize_filename filename.
Proof.
  apply Sanitizer.sanitize_fixpoint.
  - apply Sanitizer.sanitize_avoids_invalid.
  - apply Sanitizer.sanitize_no_space.
  - apply Sanitizer.sanitize_no_double.
  - apply Sanitizer.sanitize_head.
  - apply Sanitizer.sanitize_last.
Qed.

(** C7: the title [Castle in the Sky: Part 1] is sanitized to
    [Castle_in_the_Sky_Part_1]: the colon is removed, which leaves one space
    between [Sky] and [Part], and every space becomes one underscore. *)
Theorem sanitize_filename_castle :
  re_sub_class invalid_chars [] (py "Castle in the Sky: Part 1")
  = py "Castle in the Sky Part 1"
  ∧ sanitize_filename (py "Castle in the Sky: Part 1") = py "Castle_in_the_Sky_Part_1".
Proof. split; reflexivity. Qed.

(** C2, as the specification words it, fails on a segment that starts with
    its only dot: for [https://h/.png] the segment [.png] has a dot, yet the
    script takes [.jpg], which is neither [png] nor [.png]. *)
Lemma extension_rule_counterexample :
  contains extsep (last_segment (py "https://h/.png")) = true
  ∧ spec_extension (py "https://h/.png") = py "png"
  ∧ file_extension_of (py "https://h/.png") = py ".jpg"
  ∧ file_extension_of (py "https://h/.png") ≠ spec_extension (py "https://h/.png")
  ∧ file_extension_of (py "https://h/.png")
    ≠ extsep :: spec_extension (py "https://h/.png").
Proof. repeat split; (reflexivity || (vm_compute; discriminate)). Qed.

(** C2, amended: the extension appended to the sanitized title is the end of
    the last slash-separated segment of the image URL from that segment's
    last dot on, the dot included, where the dots that start the segment are
    not counted; it is [.jpg] when the segment has no other dot.  The file
    is written to the download directory under the sanitized title followed
    by that extension. *)
Theorem file_extension_rule (title image_url : pystr) :
  file_extension_of image_url = dotted_extension image_url
  ∧ filepath_of title image_url
    = DOWNLOAD_DIR ++ [sep] ++ sanitize_filename title ++ dotted_extension image_url.
Proof.
  split; [apply Paths.file_extension_of_dotted|apply Paths.filepath_of_spelled].
Qed.

(** C3, as the specification words it, fails on a status outside 2xx that
    is not an error status: a reply with status 300 and a JSON body is not
    rejected, the poster is downloaded and the exit code is 0. *)
Lemma metadata_status_300_counterexample :
  metadata_fails_spec (http_get env_300 (length (requests world0)) API_URL) = true
  ∧ (fetch_and_download_ghibli_images env_300 world0).1 = 0%Z
  ∧ requests (fetch_and_download_ghibli_images env_300 world0).2 = [API_URL; castle_url]
  ∧ files (fetch_and_download_ghibli_images env_300 world0).2
      !! py "ghibli_movie_images/Castle_in_the_Sky.jpg"
    = Some (concat jpeg_chunks).
Proof. repeat split; vm_compute; reflexivity. Qed.

(** C3, amended: if the metadata GET raises a network error, or is answered
    with a 4xx or 5xx status, or its body fails to parse as JSON, the script
    prints one error line on the diagnostic stream and exits with code 1; the
    metadata request is the only request made and no file is touched. *)
Theorem metadata_failure_is_fatal (env : environment) (w : world) :
  metadata_fails (http_get env (length (requests w)) API_URL) = true →
  ∃ m, is_error_report m = true
       ∧ fetch_and_download_ghibli_images env w
         = (1%Z,
            {| output := output w ++ [(Stdout, FetchingFrom API_URL); (Stderr, m)];
               requests := requests w ++ [API_URL];
               files := files w |}).
Proof.
  unfold metadata_fails, fetch_and_download_ghibli_images, get, print, raise_for_status.
  cbn [output requests files].
  destruct (http_get env _ API_URL) as [msg|r]; intros H.
  - eexists. split; [|by rewrite <- app_assoc]. done.
  - fold (is_4xx_5xx (status_code r)).
    destruct (is_4xx_5xx (status_code r)).
    { eexists. split; [|by rewrite <- app_assoc]. done. }
    unfold json_fails in H. simpl in H.
    destruct (json r) as [films|[] msg]; [done| |];
      (eexists; split; [|by rewrite <- app_assoc]; done).
Qed.

Lemma metadata_failure_is_fatal_witness :
  ∃ m, is_error_report m = true
       ∧ fetch_and_download_ghibli_images env_down world0
         = (1%Z,
            {| output := output world0 ++ [(Stdout, FetchingFrom API_URL); (Stderr, m)];
               requests := requests world0 ++ [API_URL];
               files := files world0 |}).
Proof. apply (metadata_failure_is_fatal env_down world0). reflexivity. Defined.




(** C5: a record without an image URL makes the loop print a warning on the
    diagnostic stream and go on: both counters keep their values, no request
    is made and no file is touched. *)
Theorem missing_image_is_skipped (env : environment) (st : loop_state) (film : film) :
  film !! "image"%string = None →
  process_film env st film
  = {| download_count := download_count st;
       error_count := error_count st;
       the_world :=
         {| output := output (the_world st)
                      ++ [(Stderr, WarningNoImageURL (title_of film))];
            requests := requests (the_world st);
            files := files (the_world st) |} |}.
Proof.
  intros H. apply Pipeline.process_film_skip. unfold has_image_url. by rewrite H.
Qed.

Lemma missing_image_is_skipped_witness :
  process_film env_404 (loop_start after_fetch) totoro_without_image
  = {| download_count := 0;
       error_count := 0;
       the_world :=
         {| output := [(Stderr, WarningNoImageURL (py "My Neighbor Totoro"))];
            requests := [API_URL];
            files := ∅ |} |}.
Proof.
  apply (missing_image_is_skipped env_404 (loop_start after_fetch) totoro_without_image).
  reflexivity.
Defined.

(** C9: a record whose image field holds the empty string is handled as the
    same record without the field: a warning on the diagnostic stream, both
    counters unchanged, no request and no file. *)
Theorem empty_image_is_skipped (env : environment) (st : loop_state) (film : film) :
  film !! "image"%string = Some [] →
  process_film env st film = process_film env st (delete "image"%string film)
  ∧ process_film env st film
    = {| download_count := download_count st;
         error_count := error_count st;
         the_world :=
           {| output := output (the_world st)
                        ++ [(Stderr, WarningNoImageURL (title_of film))];
              requests := requests (the_world st);
              files := files (the_world st) |} |}.
Proof.
  intros H.
  assert (Hskip : ∀ f, has_image_url f = false →
            process_film env st f
            = {| download_count := download_count st;
                 error_count := error_count st;
                 the_world := print Stderr (WarningNoImageURL (title_of f)) (the_world st) |})
    by (intros f; apply Pipeline.process_film_skip).
  split.
  - rewrite !Hskip.
    + unfold title_of. by rewrite lookup_delete_ne.
    + unfold has_image_url. by rewrite lookup_delete_eq.
    + unfold has_image_url. by rewrite H.
  - apply Hskip. unfold has_image_url. by rewrite H.
Qed.

Lemma empty_image_is_skipped_witness :
  process_film env_404 (loop_start after_fetch) kiki_empty_image
  = process_film env_404 (loop_start after_fetch) (delete "image"%string kiki_empty_image)
  ∧ process_film env_404 (loop_start after_fetch) kiki_empty_image
    = {| download_count := 0;
         error_count := 0;
         the_world :=
           {| output := [(Stderr, WarningNoImageURL (title_of kiki_empty_image))];
              requests := [API_URL];
              files := ∅ |} |}.
Proof.
  apply (empty_image_is_skipped env_404 (loop_start after_fetch) kiki_empty_image).
  reflexivity.
Defined.



(** C10: after any number of records, the success counter plus the error
    counter is the number of processed records that had a non-empty image
    URL; so the two counts of the final report sum to the number of records
    that were not skipped. *)
Theorem counters_count_attempts (env : environment) (w : world)
    (pre post : list film) :
  (download_count (process_films env pre (loop_start w))
   + error_count (process_films env pre (loop_start w))
   = length (List.filter has_image_url pre))%nat
  ∧ ∃ d e,
      output (report (process_films env (pre ++ post) (loop_start w)))
      = output (the_world (process_films env (pre ++ post) (loop_start w)))
        ++ report_lines d e
      ∧ (d + e = length (List.filter has_image_url (pre ++ post)))%nat.
Proof.
  split.
  - by rewrite Pipeline.process_films_counters.
  - exists (download_count (process_films env (pre ++ post) (loop_start w))),
           (error_count (process_films env (pre ++ post) (loop_start w))).
    split; [|by rewrite Pipeline.process_films_counters].
    generalize (process_films env (pre ++ post) (loop_start w)). intros st.
    unfold report, report_lines, print. cbn [output].
    destruct (error_count st); simpl; by rewrite <- !app_assoc.
Qed.

(** * Further properties of the sanitizer *)

Module SanitizerFacts.

Lemma kept_underscore : kept underscore = false.
Proof. reflexivity. Qed.

Lemma in_class_kept c : in_class invalid_chars c = true → kept c = false.
Proof. unfold kept, droppable. by intros ->. Qed.

Lemma filter_kept_re_sub_class s :
  List.filter kept (re_sub_class invalid_chars [] s) = List.filter kept s.
Proof.
  induction s as [|x s IH]; [done|]. unfold re_sub_class in *. cbn [flat_map List.filter].
  destruct (in_class invalid_chars x) eqn:Hx.
  - by rewrite (in_class_kept x Hx).
  - cbn [app List.filter]. by rewrite IH.
Qed.

Lemma filter_kept_str_replace s :
  List.filter kept (str_replace space [underscore] s) = List.filter kept s.
Proof.
  induction s as [|x s IH]; [done|]. unfold str_replace in *. cbn [flat_map List.filter].
  destruct (N.eqb_spec x space) as [->|Hne].
  - cbn [app List.filter]. by rewrite kept_underscore.
  - cbn [app List.filter]. by rewrite IH.
Qed.

Lemma filter_kept_re_sub_plus s :
  List.filter kept (re_sub_plus underscore [underscore] s) = List.filter kept s.
Proof.
  induction s as [|x s IH]; [done|]. rewrite Sanitizer.re_sub_plus_cons.
  destruct (N.eqb_spec x underscore) as [->|Hne].
  - cbn [List.filter]. rewrite kept_underscore.
    destruct s as [|y s]; [done|].
    destruct (y =? underscore)%N; [done|].
    cbn [app List.filter]. by rewrite kept_underscore.
  - cbn [List.filter]. by rewrite IH.
Qed.

(** What [lstrip] and [rstrip] cut off is made of characters of the class. *)
Lemma lstrip_split cls s :
  ∃ k, s = k ++ lstrip cls s ∧ Forall (λ c, in_class cls c = true) k.
Proof.
  induction s as [|x s IH]; [by exists []|]. simpl.
  destruct (in_class cls x) eqn:Hx; [|by exists []].
  destruct IH as (k & Hk & Hall). exists (x :: k). split.
  - simpl. by rewrite <- Hk.
  - by constructor.
Qed.

Lemma rstrip_split cls s :
  ∃ k, s = rstrip cls s ++ k ∧ Forall (λ c, in_class cls c = true) k.
Proof.
  destruct (lstrip_split cls (reverse s)) as (k & Hk & Hall).
  exists (reverse k). split.
  - unfold rstrip. rewrite <- reverse_app, <- Hk. by rewrite reverse_involutive.
  - by apply Forall_reverse.
Qed.

Lemma filter_kept_underscores k :
  Forall (λ c, in_class [underscore] c = true) k → List.filter kept k = [].
Proof.
  induction 1 as [|x k Hx _ IH]; [done|]. cbn [List.filter].
  unfold in_class in Hx. simpl in Hx. rewrite orb_false_r in Hx.
  apply N.eqb_eq in Hx as ->. by rewrite kept_underscore.
Qed.

Lemma filter_kept_strip s :
  List.filter kept (strip [underscore] s) = List.filter kept s.
Proof.
  destruct (lstrip_split [underscore] s) as (k1 & H1 & Hk1).
  destruct (rstrip_split [underscore] (lstrip [underscore] s)) as (k2 & H2 & Hk2).
  fold (strip [underscore] s) in H2.
  rewrite H1 at 2. rewrite H2.
  rewrite !List.filter_app, (filter_kept_underscores k1), (filter_kept_underscores k2) by done.
  by rewrite app_nil_r.
Qed.

Lemma filter_kept_sanitize s :
  List.filter kept (sanitize_filename s) = List.filter kept s.
Proof.
  unfold sanitize_filename.
  by rewrite filter_kept_strip, filter_kept_re_sub_plus, filter_kept_str_replace,
    filter_kept_re_sub_class.
Qed.

Lemma filter_nil_Forall (f : char → bool) s :
  List.filter f s = [] ↔ Forall (λ c, f c = false) s.
Proof.
  induction s as [|x s IH]; [by split; [constructor|]|]. cbn [List.filter].
  destruct (f x) eqn:Hx.
  - split; [done|]. intros H. apply Forall_cons in H as [H _]. congruence.
  - rewrite IH. split; [by constructor|]. by intros [_ ?]%Forall_cons.
Qed.

(** *** Lengths *)

Lemma re_sub_class_length cls s : (length (re_sub_class cls [] s) ≤ length s)%nat.
Proof.
  induction s as [|x s IH]; [done|]. unfold re_sub_class in *. cbn [flat_map].
  destruct (in_class cls x); simpl; lia.
Qed.

Lemma str_replace_length old new s : length (str_replace old [new] s) = length s.
Proof.
  induction s as [|x s IH]; [done|]. unfold str_replace in *. cbn [flat_map].
  destruct (x =? old)%N; simpl; by rewrite IH.
Qed.

Lemma re_sub_plus_length c s : (length (re_sub_plus c [c] s) ≤ length s)%nat.
Proof.
  induction s as [|x s IH]; [done|]. rewrite Sanitizer.re_sub_plus_cons.
  destruct (x =? c)%N; [|simpl; lia].
  destruct s as [|y s]; [done|].
  destruct (y =? c)%N; cbn [app length] in *; lia.
Qed.

Lemma strip_length cls s : (length (strip cls s) ≤ length s)%nat.
Proof.
  destruct (Sanitizer.strip_infix cls s) as (k1 & k2 & H).
  rewrite H at 2. rewrite !length_app. lia.
Qed.

(** *** Spaces and underscores *)

Lemma re_sub_class_cons cls repl x s :
  re_sub_class cls repl (x :: s)
  = (if in_class cls x then repl else [x]) ++ re_sub_class cls repl s.
Proof. reflexivity. Qed.

Lemma str_replace_cons old new x s :
  str_replace old new (x :: s)
  = (if (x =? old)%N then new else [x]) ++ str_replace old new s.
Proof. reflexivity. Qed.

Lemma replace_after_replace s :
  str_replace space [underscore]
    (re_sub_class invalid_chars [] (str_replace space [underscore] s))
  = str_replace space [underscore] (re_sub_class invalid_chars [] s).
Proof.
  induction s as [|x s IH]; [done|].
  rewrite str_replace_cons, (re_sub_class_cons _ _ x).
  destruct (N.eqb_spec x space) as [->|Hne].
  - change (in_class invalid_chars space) with false. cbn [app].
    rewrite re_sub_class_cons. change (in_class invalid_chars underscore) with false.
    cbn [app]. rewrite !str_replace_cons. cbn [app].
    change (underscore =? space)%N with false. rewrite N.eqb_refl. cbn [app].
    by rewrite IH.
  - cbn [app]. rewrite re_sub_class_cons.
    destruct (in_class invalid_chars x); cbn [app]; [done|].
    rewrite !str_replace_cons, (proj2 (N.eqb_neq x space) Hne). cbn [app].
    by rewrite IH.
Qed.

End SanitizerFacts.

(** * Further properties of paths *)

Module PathFacts.

Lemma splitext_scan_join p di n fi :
  (splitext_scan p di n fi).1 ++ (splitext_scan p di n fi).2 = p.
Proof.
  revert fi. induction n as [|n IH]; intros fi; simpl; [apply app_nil_r|].
  destruct (bool_decide _); [apply take_drop|apply IH].
Qed.

Lemma after_last_suffix c s : after_last c s `suffix_of` s.
Proof.
  induction s as [|x s IH]; [done|]. simpl.
  destruct (contains c s); [by apply suffix_cons_r|].
  destruct (x =? c)%N; [by apply suffix_cons_r|done].
Qed.

Lemma contains_suffix c (s t : pystr) :
  s `suffix_of` t → contains c t = false → contains c s = false.
Proof.
  intros [k ->]. rewrite Paths.contains_app. by intros [_ ?]%orb_false_elim.
Qed.

(** The extension of [dotted_extension] is a dot followed by characters that
    are neither dots nor slashes. *)
Lemma dotted_extension_shape url :
  ∃ e, dotted_extension url = extsep :: e
       ∧ contains extsep e = false ∧ contains sep e = false.
Proof.
  unfold dotted_extension.
  destruct (contains extsep _) eqn:Hdot.
  - eexists. split; [reflexivity|]. split; [apply Paths.contains_after_last|].
    eapply contains_suffix; [apply after_last_suffix|].
    apply Paths.contains_lstrip, Paths.contains_after_last.
  - exists (py "jpg"). by repeat split.
Qed.

Lemma contains_false_Forall c s : contains c s = false ↔ Forall (λ x, x ≠ c) s.
Proof.
  induction s as [|x s IH]; [by split; [constructor|]|].
  rewrite Paths.contains_cons, orb_false_iff, IH, Forall_cons.
  destruct (N.eqb_spec c x) as [->|Hne]; split; intros [H1 H2]; split;
    congruence.
Qed.

Lemma sanitize_no_sep title : contains sep (sanitize_filename title) = false.
Proof.
  apply contains_false_Forall.
  eapply Forall_impl; [apply Sanitizer.sanitize_avoids_invalid|].
  intros x Hx ->. discriminate.
Qed.

(** The name of the written file has no slash in it. *)
Lemma file_name_no_sep title url :
  contains sep (sanitize_filename title ++ dotted_extension url) = false.
Proof.
  destruct (dotted_extension_shape url) as (e & -> & _ & He).
  by rewrite Paths.contains_app, Paths.contains_cons, sanitize_no_sep, He.
Qed.

Lemma basename_join (dir name : pystr) :
  contains sep name = false → basename (dir ++ sep :: name) = name.
Proof.
  intros H. unfold basename, rfind. rewrite Paths.rfind_from_last by done.
  replace (Z.to_nat (0 + Z.of_nat (length dir) + 1)) with (length (dir ++ [sep]))
    by (rewrite length_app; simpl; lia).
  change (dir ++ sep :: name) with (dir ++ [sep] ++ name).
  by rewrite app_assoc, drop_app_length.
Qed.

End PathFacts.

(** * Further properties of the pipeline *)

Module PipelineFacts.

Section WithEnvironment.

Variable env : environment.

(** *** The chunk loop *)

(** The loop only ever appends to the file it was given. *)
Lemma write_chunks_prefix (d : disk_outcome) (filepath : pystr) (i : nat)
    (chunks : list bytes) (fs : gmap (list N) (list Byte.byte)) (c : bytes) :
  fs !! filepath = Some c →
  ∃ k, (k ≤ length chunks)%nat
       ∧ (write_chunks d filepath i chunks fs).2
         = <[filepath := c ++ concat (take k chunks)]> fs
       ∧ ((write_chunks d filepath i chunks fs).1 = None → k = length chunks).
Proof.
  revert i fs c. induction chunks as [|chunk rest IH]; intros i fs c Hc; simpl.
  - exists 0%nat. simpl. rewrite app_nil_r. by rewrite insert_id.
  - destruct (write_error d i) as [msg|].
    + exists 0%nat. simpl. rewrite app_nil_r. rewrite insert_id by done.
      repeat split; [lia|done].
    + rewrite Hc. simpl.
      destruct (IH (S i) (<[filepath:=c ++ chunk]> fs) (c ++ chunk)) as (k & Hk & Hfs & Hnone);
        [apply lookup_insert_eq|].
      exists (S k). simpl. rewrite Hfs, insert_insert_eq, <- app_assoc.
      repeat split; [lia|]. intros H. by rewrite Hnone.
Qed.

Lemma write_chunks_ok (d : disk_outcome) (filepath : pystr) (i : nat)
    (chunks : list bytes) (fs : gmap (list N) (list Byte.byte)) (c : bytes) :
  fs !! filepath = Some c →
  (∀ j, (i ≤ j < i + length chunks)%nat → write_error d j = None) →
  write_chunks d filepath i chunks fs
  = (None, <[filepath := c ++ concat chunks]> fs).
Proof.
  revert i fs c. induction chunks as [|chunk rest IH]; intros i fs c Hc Hok; simpl.
  - by rewrite app_nil_r, insert_id.
  - rewrite (Hok i) by (simpl; lia). rewrite Hc. simpl.
    rewrite (IH (S i) _ (c ++ chunk)).
    + by rewrite insert_insert_eq, <- app_assoc.
    + apply lookup_insert_eq.
    + intros j Hj. apply Hok. simpl. lia.
Qed.

(** *** One download *)

(** The files after a download: the old ones, with at most the destination
    replaced. *)
Lemma download_image_files url filepath w :
  files (download_image env url filepath w).2 = files w
  ∨ ∃ content, files (download_image env url filepath w).2
               = <[filepath := content]> (files w).
Proof.
  unfold download_image, get.
  destruct (http_get env _ url) as [msg|r]; [by left|].
  destruct (raise_for_status r) as [e|]; [by left|].
  destruct (open_error _) as [msg|]; [by left|].
  right.
  destruct (write_chunks_prefix (disk env (length (requests w)) filepath) filepath 0
              (iter_content r) (<[filepath := []]> (files w)) [])
    as (k & _ & Hfs & _); [apply lookup_insert_eq|].
  exists (concat (take k (iter_content r))).
  destruct (write_chunks _ _ _ _ _) as [[msg|] fs]; simpl in Hfs; subst fs.
  - simpl. by rewrite insert_insert_eq.
  - destruct (stream_error r); simpl; by rewrite insert_insert_eq.
Qed.



(** *** One record *)


(** What the body of the loop does with a record that has an image URL. *)
Lemma process_film_attempt st (film : gmap string (list N)) url :
  film !! "image"%string = Some url → url ≠ [] →
  process_film env st film
  = let r := download_image env url (filepath_of (title_of film) url)
               (print Stdout (SavingTo (filepath_of (title_of film) url))
                  (print Stdout (ImageURL url)
                     (print Stdout (AttemptingDownload (title_of film)) (the_world st)))) in
    {| download_count := download_count st + (if r.1 then 1 else 0);
       error_count := error_count st + (if r.1 then 0 else 1);
       the_world := r.2 |}.
Proof.
  intros Himg Hurl. unfold process_film, title_of. rewrite Himg.
  destruct url as [|c url]; [done|]. cbn [truthy negb default].
  destruct (download_image _ _ _ _) as [[] w']; cbn [fst snd]; f_equal; lia.
Qed.

Lemma has_image_url_true (film : gmap string (list N)) :
  has_image_url film = true →
  ∃ url, film !! "image"%string = Some url ∧ url ≠ [].
Proof.
  unfold has_image_url, truthy.
  destruct (film !! "image"%string) as [[|c url]|]; try done.
  intros _. by eexists.
Qed.


Lemma process_film_files st (film : gmap string (list N)) :
  files (the_world (process_film env st film)) = files (the_world st)
  ∨ ∃ name content,
      contains sep name = false
      ∧ files (the_world (process_film env st film))
        = <[DOWNLOAD_DIR ++ sep :: name := content]> (files (the_world st)).
Proof.
  destruct (has_image_url film) eqn:Hhas.
  - destruct (has_image_url_true film Hhas) as (url & Himg & Hurl).
    rewrite (process_film_attempt st film url Himg Hurl). cbn [the_world].
    match goal with |- context [download_image env ?u ?f ?w] =>
      destruct (download_image_files u f w) as [H|[content H]]
    end; [by left|right].
    exists (sanitize_filename (title_of film) ++ dotted_extension url), content.
    split; [apply PathFacts.file_name_no_sep|].
    rewrite H. by rewrite Paths.filepath_of_spelled.
  - left. by rewrite Pipeline.process_film_skip.
Qed.


(** *** The loop *)



Lemma process_films_files films st (p : list N) :
  files (the_world (process_films env films st)) !! p = files (the_world st) !! p
  ∨ ∃ name, p = DOWNLOAD_DIR ++ sep :: name ∧ contains sep name = false.
Proof.
  revert st. induction films as [|film films IH]; intros st; [by left|].
  rewrite Pipeline.process_films_cons.
  destruct (IH (process_film env st film)) as [H|H]; [|by right].
  rewrite H.
  destruct (process_film_files st film) as [->|(name & content & Hname & ->)]; [by left|].
  destruct (decide (p = DOWNLOAD_DIR ++ sep :: name)) as [->|Hne].
  - right. by exists name.
  - left. by rewrite lookup_insert_ne.
Qed.

Lemma process_films_keeps_files films st (p : list N) :
  is_Some (files (the_world st) !! p) →
  is_Some (files (the_world (process_films env films st)) !! p).
Proof.
  revert st. induction films as [|film films IH]; intros st Hp; [done|].
  rewrite Pipeline.process_films_cons. apply IH.
  destruct (process_film_files st film) as [->|(name & content & _ & ->)]; [done|].
  rewrite lookup_insert. by case_decide.
Qed.


(** The report adds no line of the three kinds. *)
Lemma report_requests_files st :
  requests (report st) = requests (the_world st)
  ∧ files (report st) = files (the_world st).
Proof. unfold report. by destruct (0 <? error_count st)%nat. Qed.

End WithEnvironment.

End PipelineFacts.

(** * Further theorems *)

(** ** [sanitize_filename] *)

(** X1: whatever the title, every character of the sanitized name is either
    an underscore or a character the sanitizer keeps: no character of the
    class and no space is left. *)
Theorem sanitize_filename_alphabet (filename : pystr) :
  Forall (λ c, c = underscore ∨ kept c = true) (sanitize_filename filename).
Proof.
  pose proof (Sanitizer.sanitize_avoids_invalid filename) as Ha.
  pose proof (Sanitizer.sanitize_no_space filename) as Hs.
  unfold avoids in Ha.
  induction Ha as [|x r Hx _ IH]; [constructor|].
  apply Forall_cons in Hs as [Hsp Hs]. constructor; [|by apply IH].
  unfold kept, droppable. rewrite Hx.
  destruct (N.eqb_spec x space); [done|].
  destruct (N.eqb_spec x underscore); [by left|by right].
Qed.

(** X2: the sanitizer neither drops, changes nor reorders the kept
    characters: the name and the title agree once the class, the spaces and
    the underscores are taken out of both. *)
Theorem sanitize_filename_keeps_letters (filename : pystr) :
  List.filter kept (sanitize_filename filename) = List.filter kept filename.
Proof. apply SanitizerFacts.filter_kept_sanitize. Qed.

(** X3: the sanitized name is empty exactly when the title has nothing but
    characters of the class, spaces and underscores (the empty title
    included). *)
Theorem sanitize_filename_empty_iff (filename : pystr) :
  sanitize_filename filename = [] ↔ Forall (λ c, droppable c = true) filename.
Proof.
  assert (Hk : ∀ s : list N,
            List.filter kept s = [] ↔ Forall (λ c, droppable c = true) s).
  { intros s. rewrite SanitizerFacts.filter_nil_Forall. unfold kept.
    split; intros H; (eapply Forall_impl; [exact H|]); intros c; simpl;
      by destruct (droppable c). }
  split.
  - intros H. apply Hk. by rewrite <- SanitizerFacts.filter_kept_sanitize, H.
  - intros H. apply Hk in H. rewrite <- SanitizerFacts.filter_kept_sanitize in H.
    apply Hk in H.
    pose proof (Sanitizer.sanitize_avoids_invalid filename) as Ha.
    pose proof (Sanitizer.sanitize_no_space filename) as Hs.
    pose proof (Sanitizer.sanitize_head filename) as Hh.
    destruct (sanitize_filename filename) as [|x r]; [done|].
    apply Forall_cons in H as [Hd _]. apply Forall_cons in Ha as [Hx _].
    apply Forall_cons in Hs as [Hsp _]. exfalso. apply Hh. simpl. f_equal.
    unfold droppable in Hd. rewrite Hx in Hd.
    destruct (N.eqb_spec x space); [done|]. by apply N.eqb_eq in Hd.
Qed.

(** X4: the sanitized name is never longer than the title. *)
Theorem sanitize_filename_length (filename : pystr) :
  (length (sanitize_filename filename) ≤ length filename)%nat.
Proof.
  unfold sanitize_filename.
  etrans; [apply SanitizerFacts.strip_length|].
  etrans; [apply SanitizerFacts.re_sub_plus_length|].
  rewrite SanitizerFacts.str_replace_length. apply SanitizerFacts.re_sub_class_length.
Qed.

(** X5: a title is returned unchanged exactly when it has no character of
    the class, no space, no two underscores in a row and no underscore at
    either end. *)
Theorem sanitize_filename_fixed_points (filename : pystr) :
  sanitize_filename filename = filename
  ↔ avoids invalid_chars filename
    ∧ Forall (λ c, c ≠ space) filename
    ∧ no_double underscore filename
    ∧ head filename ≠ Some underscore
    ∧ last filename ≠ Some underscore.
Proof.
  split.
  - intros <-. repeat split.
    + apply Sanitizer.sanitize_avoids_invalid.
    + apply Sanitizer.sanitize_no_space.
    + apply Sanitizer.sanitize_no_double.
    + apply Sanitizer.sanitize_head.
    + apply Sanitizer.sanitize_last.
  - intros (? & ? & ? & ? & ?). by apply Sanitizer.sanitize_fixpoint.
Qed.

(** X6: spaces and underscores are interchangeable in a title: writing an
    underscore for every space does not change the sanitized name, so titles
    that differ only in this way are saved under one name. *)
Theorem sanitize_filename_space_is_underscore (filename : pystr) :
  sanitize_filename (str_replace space [underscore] filename)
  = sanitize_filename filename.
Proof.
  unfold sanitize_filename. by rewrite SanitizerFacts.replace_after_replace.
Qed.

(** ** Paths *)

(** X7: [splitext] cuts and loses nothing: the root followed by the
    extension is the path again. *)
Theorem splitext_joins_back (p : pystr) :
  (splitext p).1 ++ (splitext p).2 = p.
Proof.
  unfold splitext. destruct (_ <? _)%Z; [|apply app_nil_r].
  apply PathFacts.splitext_scan_join.
Qed.

(** X8: the extension given to a file is a dot followed by characters that
    are neither dots nor slashes; in particular it is never empty. *)
Theorem file_extension_shape (image_url : pystr) :
  ∃ e, file_extension_of image_url = extsep :: e
       ∧ contains extsep e = false
       ∧ contains sep e = false.
Proof.
  rewrite Paths.file_extension_of_dotted. apply PathFacts.dotted_extension_shape.
Qed.

(** X9: the name of the written file has no slash, so the file lies directly
    in the download directory, and [os.path.basename] of the path, which the
    success line prints, is the sanitized title followed by the extension. *)
Theorem filepath_basename (title image_url : pystr) :
  contains sep (sanitize_filename title ++ file_extension_of image_url) = false
  ∧ basename (filepath_of title image_url)
    = sanitize_filename title ++ file_extension_of image_url.
Proof.
  rewrite Paths.filepath_of_spelled, Paths.file_extension_of_dotted.
  split; [apply PathFacts.file_name_no_sep|].
  apply PathFacts.basename_join, PathFacts.file_name_no_sep.
Qed.

(** ** [download_image] *)

(** X10: when the GET is answered with a status that is not 4xx or 5xx, the
    file opens, every write goes through and the stream ends cleanly,
    [download_image] returns [True]; the destination then holds exactly the
    chunks of the body in order, whatever it held before, and the success
    line names the base name of the destination. *)
Theorem download_image_success (env : environment) (url filepath : pystr)
    (w : world) (r : response) :
  http_get env (length (requests w)) url = GetReturns r →
  is_4xx_5xx (status_code r) = false →
  open_error (disk env (length (requests w)) filepath) = None →
  (∀ j, (j < length (iter_content r))%nat →
        write_error (disk env (length (requests w)) filepath) j = None) →
  stream_error r = None →
  download_image env url filepath w
  = (true,
     {| output := output w ++ [(Stdout, SuccessfullyDownloaded (basename filepath))];
        requests := requests w ++ [url];
        files := <[filepath := concat (iter_content r)]> (files w) |}).
Proof.
  intros Hget Hst Hopen Hwrite Hstream.
  unfold download_image, get, raise_for_status. unfold is_4xx_5xx in Hst.
  rewrite Hget, Hst, Hopen.
  rewrite (PipelineFacts.write_chunks_ok _ _ 0 _ _ []);
    [|apply lookup_insert_eq|intros j Hj; apply Hwrite; lia].
  rewrite Hstream. unfold print, set_files. cbn [output requests files app].
  by rewrite insert_insert_eq.
Qed.

Lemma download_image_success_witness :
  download_image env_200 castle_url
    (py "ghibli_movie_images/Castle_in_the_Sky.jpg") with_old_poster
  = (true,
     {| output := output with_old_poster
                  ++ [(Stdout, SuccessfullyDownloaded
                         (basename (py "ghibli_movie_images/Castle_in_the_Sky.jpg")))];
        requests := requests with_old_poster ++ [castle_url];
        files := <[py "ghibli_movie_images/Castle_in_the_Sky.jpg"
                   := concat (iter_content (reply 200 [castle] jpeg_chunks))]>
                   (files with_old_poster) |}).
Proof.
  apply (download_image_success env_200 castle_url
           (py "ghibli_movie_images/Castle_in_the_Sky.jpg") with_old_poster
           (reply 200 [castle] jpeg_chunks)).
  - reflexivity.
  - reflexivity.
  - reflexivity.
  - intros j Hj. reflexivity.
  - reflexivity.
Defined.


(** X12: [download_image] leaves every file other than its destination as it
    was, and removes none. *)
Theorem download_image_other_files (env : environment) (url filepath : pystr)
    (w : world) (p : pystr) :
  (p = filepath
   ∨ files (download_image env url filepath w).2 !! p = files w !! p)
  ∧ (is_Some (files w !! p)
     → is_Some (files (download_image env url filepath w).2 !! p)).
Proof.
  destruct (PipelineFacts.download_image_files env url filepath w)
    as [->|[content ->]]; [by split; [right|]|].
  destruct (decide (p = filepath)) as [->|Hne].
  - split; [by left|]. intros _. rewrite lookup_insert_eq. by eexists.
  - rewrite lookup_insert_ne by done. by split; [right|].
Qed.

(** X13: when the stream breaks after some chunks, [download_image] returns
    [False] and reports the network error, but the chunks received so far
    stay in the destination, in place of what it held before: a failed
    download can leave a truncated file. *)
Theorem download_image_broken_stream (env : environment) (url filepath : pystr)
    (w : world) (r : response) (msg : pystr) :
  http_get env (length (requests w)) url = GetReturns r →
  is_4xx_5xx (status_code r) = false →
  open_error (disk env (length (requests w)) filepath) = None →
  (∀ j, (j < length (iter_content r))%nat →
        write_error (disk env (length (requests w)) filepath) j = None) →
  stream_error r = Some msg →
  download_image env url filepath w
  = (false,
     {| output := output w ++ [(Stderr, ErrorDownloading url (RequestException msg))];
        requests := requests w ++ [url];
        files := <[filepath := concat (iter_content r)]> (files w) |}).
Proof.
  intros Hget Hst Hopen Hwrite Hstream.
  unfold download_image, get, raise_for_status. unfold is_4xx_5xx in Hst.
  rewrite Hget, Hst, Hopen.
  rewrite (PipelineFacts.write_chunks_ok _ _ 0 _ _ []);
    [|apply lookup_insert_eq|intros j Hj; apply Hwrite; lia].
  rewrite Hstream. unfold print, set_files. cbn [output requests files app].
  by rewrite insert_insert_eq.
Qed.

Lemma download_image_broken_stream_witness :
  download_image env_broken_stream castle_url
    (py "ghibli_movie_images/Castle_in_the_Sky.jpg") with_old_poster
  = (false,
     {| output := [(Stderr, ErrorDownloading castle_url
                              (RequestException (py "Connection broken")))];
        requests := [API_URL; castle_url];
        files := {[ py "ghibli_movie_images/Castle_in_the_Sky.jpg"
                    := [Byte.xff; Byte.xd8; Byte.xff; Byte.xd9] ]} |}).
Proof.
  apply (download_image_broken_stream env_broken_stream castle_url
           (py "ghibli_movie_images/Castle_in_the_Sky.jpg") with_old_poster
           {| status_code := 200; json := JsonList [castle];
              iter_content := jpeg_chunks;
              stream_error := Some (py "Connection broken") |}
           (py "Connection broken")).
  - reflexivity.
  - reflexivity.
  - reflexivity.
  - intros j Hj. reflexivity.
  - reflexivity.
Defined.

(** X14: [download_image] returns [True] only when the GET was answered with
    a status that is not 4xx or 5xx and the whole body has been written: the
    destination then holds all the chunks. *)
Theorem download_image_true_means_complete (env : environment)
    (url filepath : pystr) (w : world) :
  (download_image env url filepath w).1 = true →
  ∃ r, http_get env (length (requests w)) url = GetReturns r
       ∧ is_4xx_5xx (status_code r) = false
       ∧ stream_error r = None
       ∧ files (download_image env url filepath w).2
         = <[filepath := concat (iter_content r)]> (files w).
Proof.
  unfold download_image, get, raise_for_status.
  destruct (http_get env _ url) as [msg|r]; [done|].
  fold (is_4xx_5xx (status_code r)).
  destruct (is_4xx_5xx (status_code r)) eqn:Hst; [done|].
  destruct (open_error _) as [msg|]; [done|].
  destruct (PipelineFacts.write_chunks_prefix (disk env (length (requests w)) filepath)
              filepath 0 (iter_content r) (<[filepath := []]> (files w)) [])
    as (k & Hk & Hfs & Hnone); [apply lookup_insert_eq|].
  destruct (write_chunks _ _ _ _ _) as [[msg|] fs]; [done|].
  destruct (stream_error r) eqn:Hse; [done|]. intros _.
  exists r. do 3 (split; [done|]).
  simpl in *. rewrite Hfs, (Hnone eq_refl), insert_insert_eq.
  by rewrite take_ge.
Qed.

Lemma download_image_true_means_complete_witness :
  ∃ r, http_get env_200 (length (requests with_old_poster)) castle_url = GetReturns r
       ∧ is_4xx_5xx (status_code r) = false
       ∧ stream_error r = None
       ∧ files (download_image env_200 castle_url
                  (py "ghibli_movie_images/Castle_in_the_Sky.jpg") with_old_poster).2
         = <[py "ghibli_movie_images/Castle_in_the_Sky.jpg"
             := concat (iter_content r)]> (files with_old_poster).
Proof.
  apply (download_image_true_means_complete env_200 castle_url
           (py "ghibli_movie_images/Castle_in_the_Sky.jpg") with_old_poster).
  reflexivity.
Defined.

(** ** The loop and the whole script *)


(** X16: whatever the network and the disk answer, a file whose content the
    script changes lies directly in the download directory: its path is the
    directory, a slash and a name without slash. *)
Theorem run_files_stay_in_directory (env : environment) (w : world) (p : pystr) :
  files (fetch_and_download_ghibli_images env w).2 !! p = files w !! p
  ∨ ∃ name, p = DOWNLOAD_DIR ++ sep :: name ∧ contains sep name = false.
Proof.
  unfold fetch_and_download_ghibli_images, get.
  destruct (http_get env _ API_URL) as [msg|r]; [by left|].
  destruct (raise_for_status r) as [e|]; [by left|].
  destruct (json r) as [films|[] msg]; [|by left..].
  destruct (makedirs_error env DOWNLOAD_DIR) as [msg|]; [by left|].
  cbn [snd].
  rewrite (proj2 (PipelineFacts.report_requests_files _)).
  match goal with |- context [process_films env films ?s] =>
    destruct (PipelineFacts.process_films_files env films s p) as [H|H]
  end; [by left|by right].
Qed.

(** X17: the script removes no file: every path that names a file before
    the run names one after it. *)
Theorem run_keeps_files (env : environment) (w : world) :
  dom (files w) ⊆ dom (files (fetch_and_download_ghibli_images env w).2).
Proof.
  intros p Hp. apply elem_of_dom in Hp. apply elem_of_dom.
  unfold fetch_and_download_ghibli_images, get.
  destruct (http_get env _ API_URL) as [msg|r]; [done|].
  destruct (raise_for_status r) as [e|]; [done|].
  destruct (json r) as [films|[] msg]; [|done..].
  destruct (makedirs_error env DOWNLOAD_DIR) as [msg|]; [done|].
  cbn [snd].
  rewrite (proj2 (PipelineFacts.report_requests_files _)).
  by apply PipelineFacts.process_films_keeps_files.
Qed.



(** X20: when the list of films is fetched but [os.makedirs] raises, the
    script dies on the uncaught error with exit code 1 after the line that
    counts the films: no image is requested and no file is touched. *)
Theorem makedirs_failure_is_fatal (env : environment) (w : world)
    (r : response) (films : list film) (msg : pystr) :
  http_get env (length (requests w)) API_URL = GetReturns r →
  is_4xx_5xx (status_code r) = false →
  json r = JsonList films →
  makedirs_error env DOWNLOAD_DIR = Some msg →
  fetch_and_download_ghibli_images env w
  = (1%Z,
     {| output := output w ++ [(Stdout, FetchingFrom API_URL);
                               (Stdout, FoundFilms (length films));
                               (Stderr, Traceback (OSError msg))];
        requests := requests w ++ [API_URL];
        files := files w |}).
Proof.
  intros Hget Hst Hjson Hdir.
  unfold fetch_and_download_ghibli_images, get, raise_for_status.
  cbn [requests print]. unfold is_4xx_5xx in Hst.
  rewrite Hget, Hst, Hjson, Hdir. unfold print. cbn [output requests files].
  by rewrite <- !app_assoc.
Qed.

Lemma makedirs_failure_is_fatal_witness :
  fetch_and_download_ghibli_images env_readonly world0
  = (1%Z,
     {| output := output world0 ++ [(Stdout, FetchingFrom API_URL);
                                    (Stdout, FoundFilms (length [castle]));
                                    (Stderr, Traceback (OSError (py "Permission denied")))];
        requests := requests world0 ++ [API_URL];
        files := files world0 |}).
Proof.
  apply (makedirs_failure_is_fatal env_readonly world0
           (reply 200 [castle] jpeg_chunks) [castle] (py "Permission denied"));
    reflexivity.
Defined.

(** X21: a record without a title is handled as the same record with the
    title [unknown_title]: it is announced under that name and, when it has
    an image URL, saved as [unknown_title] followed by the extension. *)
Theorem missing_title_is_unknown_title (env : environment) (st : loop_state)
    (film : film) :
  film !! "title"%string = None →
  process_film env st film
  = process_film env st (<["title"%string := py "unknown_title"]> film).
Proof.
  intros H. unfold process_film.
  rewrite lookup_insert_eq, (lookup_insert_ne film "title"%string "image"%string) by done.
  by rewrite H.
Qed.

Lemma missing_title_is_unknown_title_witness :
  process_film env_200 (loop_start after_fetch) untitled
  = process_film env_200 (loop_start after_fetch)
      (<["title"%string := py "unknown_title"]> untitled)
  ∧ files (the_world (process_film env_200 (loop_start after_fetch) untitled))
      !! py "ghibli_movie_images/unknown_title.png"
    = Some (concat jpeg_chunks).
Proof.
  split.
  - apply (missing_title_is_unknown_title env_200 (loop_start after_fetch) untitled).
    reflexivity.
  - vm_compute. reflexivity.
Defined.



(** X23: for a URL whose last segment is a stem, a dot and a tail, where the
    stem has a character other than a dot and the tail has neither dot nor
    slash, the extension is the dot and the tail, taken as they are: a query
    string after the extension, or any character of the class in it, goes
    into the file name unsanitized. *)
Theorem file_extension_of_named (pre stem e : pystr) :
  contains sep stem = false →
  forallb (λ x, (x =? extsep)%N) stem = false →
  contains extsep e = false →
  contains sep e = false →
  file_extension_of (pre ++ sep :: stem ++ extsep :: e) = extsep :: e.
Proof.
  intros Hstem Hdots He Hsep.
  rewrite Paths.file_extension_of_dotted. unfold dotted_extension, last_segment.
  rewrite Paths.after_last_app
    by (rewrite Paths.contains_app, Paths.contains_cons, Hstem, Hsep; reflexivity).
  destruct (Paths.lstrip_some_stem stem (extsep :: e) Hdots) as [a ->].
  rewrite Paths.contains_app, Paths.contains_cons, N.eqb_refl, orb_true_r.
  by rewrite Paths.after_last_app.
Qed.

Lemma file_extension_of_named_witness :
  file_extension_of (py "https://h/posters" ++ sep :: py "ponyo" ++ extsep :: py "png?v=2")
  = extsep :: py "png?v=2".
Proof.
  apply (file_extension_of_named (py "https://h/posters") (py "ponyo") (py "png?v=2"));
    reflexivity.
Defined.
